(** * A shallow embedding of the [hanja] command of gajibot-discord
    (src/src/main.rs): the search resolver, the reading extractor, the
    description parser over the supplement fragment, and the reply
    formatter.

    Rust strings are modelled at the level of Unicode scalar values: a
    [str] is a list of code points ([Z]).  Every string operation the code
    uses ([trim], [starts_with], [ends_with], [split_once]) behaves on a
    valid UTF-8 string exactly as on its sequence of scalar values, since
    UTF-8 is self-synchronising.

    The markup trees are the ones [scraper] hands to the code after parsing;
    the HTML tokenizer itself is not modelled.  The code only looks at the
    [class] attribute of elements and at text nodes, so an element is its
    (optional) class attribute and its children. *)

From Stdlib Require Import List ZArith Bool Ascii String Lia.
Import ListNotations.
Open Scope Z_scope.
Set Warnings "-register-all".

Definition str := list Z.

(** ASCII string literals as code points. *)
Definition u (s : string) : str :=
  map (fun a => Z.of_nat (nat_of_ascii a)) (list_ascii_of_string s).

Definition str_eqb (a b : str) : bool :=
  if list_eq_dec Z.eq_dec a b then true else false.

Lemma str_eqb_eq : forall a b, str_eqb a b = true <-> a = b.
Proof.
  intros a b; unfold str_eqb; destruct (list_eq_dec Z.eq_dec a b); split;
    congruence.
Qed.

(** The no-break space U+00A0, the double quote and the line feed. *)
Definition nbsp : Z := 160.
Definition dquote : Z := 34.
Definition lf : Z := 10.

(** ** Rust string primitives *)

(** [char::is_whitespace]: ASCII space and U+0009..U+000D, and above
    U+007F the Unicode [White_Space] property. *)
Definition is_whitespace (c : Z) : bool :=
  (c =? 32) || ((9 <=? c) && (c <=? 13))
  || (c =? 133) || (c =? 160) || (c =? 5760)
  || ((8192 <=? c) && (c <=? 8202))
  || (c =? 8232) || (c =? 8233) || (c =? 8239) || (c =? 8287)
  || (c =? 12288).

(** [str::trim_start]. *)
Fixpoint trim_start (s : str) : str :=
  match s with
  | [] => []
  | c :: s' => if is_whitespace c then trim_start s' else s
  end.

(** [str::trim_end]. *)
Definition trim_end (s : str) : str := rev (trim_start (rev s)).

(** [str::trim]. *)
Definition trim (s : str) : str := trim_end (trim_start s).

(** [str::starts_with] with a string pattern. *)
Fixpoint starts_with (s pat : str) : bool :=
  match pat, s with
  | [], _ => true
  | p :: pat', c :: s' => (p =? c) && starts_with s' pat'
  | _ :: _, [] => false
  end.

(** [str::starts_with] and [str::ends_with] with a [char] pattern. *)
Definition starts_with_char (s : str) (c : Z) : bool :=
  match s with
  | d :: _ => d =? c
  | [] => false
  end.

Definition ends_with_char (s : str) (c : Z) : bool :=
  starts_with_char (rev s) c.

(** [str::split_once]: split around the first occurrence of [pat]. *)
Fixpoint split_once (s pat : str) : option (str * str) :=
  if starts_with s pat then Some ([], skipn (List.length pat) s)
  else
    match s with
    | [] => None
    | c :: s' =>
        match split_once s' pat with
        | Some (a, b) => Some (c :: a, b)
        | None => None
        end
    end.

(** ** Search resolver (main.rs, lines 58-85) *)

Definition link_marker : str := u "/word/view.do?wordid=".
Definition emph_marker : str :=
  u "class=" ++ [dquote] ++ u "txt_emph1" ++ [dquote] ++ u ">".

(** The labelled block ['entry: { ... }]: [Some url_back] or [None]. *)
Definition resolve (hanja search_list : str) : option str :=
  match split_once search_list link_marker with
  | Some (_, link_start) =>
      match split_once link_start [dquote] with
      | Some (url_back, rest) =>
          match split_once rest emph_marker with
          | Some (_, x) => if starts_with x hanja then Some url_back else None
          | None => None
          end
      | None => None
      end
  | None => None
  end.

(** ** Markup trees as [scraper] exposes them *)

Inductive node : Type :=
| Text (s : str)
| Elem (class : option str) (children : list node).

(** [ElementRef::attr("class")]. *)
Definition attr_class (n : node) : option str :=
  match n with
  | Elem c _ => c
  | Text _ => None
  end.

Definition is_element (n : node) : bool :=
  match n with
  | Elem _ _ => true
  | Text _ => false
  end.

(** [ElementRef::child_elements]. *)
Definition child_elements (n : node) : list node :=
  match n with
  | Elem _ ks => filter is_element ks
  | Text _ => []
  end.

(** [ElementRef::text]: the descendant text nodes, in document order. *)
Fixpoint texts (n : node) : list str :=
  match n with
  | Text s => [s]
  | Elem _ ks =>
      (fix go (ks : list node) : list str :=
         match ks with
         | [] => []
         | k :: ks' => texts k ++ go ks'
         end) ks
  end.

(** The node and all its descendants, in document (pre-)order. *)
Fixpoint subtree (n : node) : list node :=
  match n with
  | Text _ => [n]
  | Elem _ ks =>
      n :: (fix go (ks : list node) : list node :=
              match ks with
              | [] => []
              | k :: ks' => subtree k ++ go ks'
              end) ks
  end.

(** ** Class selectors *)

(** HTML's ASCII whitespace, which separates the tokens of [class]. *)
Definition is_html_space (c : Z) : bool :=
  (c =? 32) || (c =? 9) || (c =? 10) || (c =? 12) || (c =? 13).

Fixpoint class_tokens (s : str) : list str :=
  match s with
  | [] => [[]]
  | c :: s' =>
      if is_html_space c then [] :: class_tokens s'
      else
        match class_tokens s' with
        | w :: ws => (c :: w) :: ws
        | [] => [[c]]
        end
  end.

(** A compound class selector such as [.txt_refer.on]: its class names. *)
Definition selector := list str.

Definition matches (sel : selector) (n : node) : bool :=
  match n with
  | Elem (Some c) _ =>
      forallb (fun name => existsb (str_eqb name) (class_tokens c)) sel
  | _ => false
  end.

(** [ElementRef::select]: the matching descendants, the element itself
    excluded, in document order. *)
Definition select (sel : selector) (n : node) : list node :=
  filter (matches sel) (tl (subtree n)).

(** [Html::select]: every matching element of the document. *)
Definition html_select (sel : selector) (doc : node) : list node :=
  filter (matches sel) (subtree doc).

(** [struct Hanja] and [Hanja::new]. *)
Record Hanja : Type := {
  read : selector;
  ruby : selector;
  reading : selector;
  refer : selector
}.

Definition Hanja_new : Hanja := {|
  read := [u "txt_read"];
  ruby := [u "desc_ruby"];
  reading := [u "desc_ex"];
  refer := [u "txt_refer"; u "on"]
|}.

(** ** Reading extractor (main.rs, lines 91-99) *)

(** [Option::unwrap]: [Panic] is the panic of [unwrap] on [None]. *)
Inductive panicking (A : Type) : Type :=
| Panic
| Val (a : A).
Arguments Panic {A}.
Arguments Val {A} a.

Definition unwrap {A} (o : option A) : panicking A :=
  match o with
  | Some a => Val a
  | None => Panic
  end.

Definition extract_reading (document : node) : panicking str :=
  match unwrap (hd_error (html_select (read Hanja_new) document)) with
  | Val e => Val (List.concat (texts e))
  | Panic => Panic
  end.

(** ** Description parser (main.rs, lines 113-166) *)

(** The nested [fn extract_text]. *)
Definition extract_text (n : node) : str := trim (List.concat (texts n)).

Definition space : Z := 32.
Definition open_cite : str := [space; 12298].   (* " 《" *)
Definition close_cite : str := [12299].         (* "》" *)
Definition rui : str := u "<:rui:1363124010136764516> ".

(** The loop over [ruby.text()] with the mutable [from] and [phrase]. *)
Fixpoint ruby_loop (runs : list str) (from : option str) (phrase : str)
  : option str * str :=
  match runs with
  | [] => (from, phrase)
  | s :: runs' =>
      if starts_with_char s nbsp && ends_with_char s nbsp
      then ruby_loop runs' (Some (trim s)) phrase
      else ruby_loop runs' from (phrase ++ s)
  end.

(** One iteration of [for li in child.child_elements()]. *)
Definition push_li (description : str) (li : node) : str :=
  match hd_error (select (ruby Hanja_new) li) with
  | None => description
  | Some r =>
      let description := description ++ u "> " in
      let '(from, phrase) := ruby_loop (texts r) None [] in
      let description := description ++ trim phrase in
      let description :=
        match hd_error (select (reading Hanja_new) li) with
        | Some example =>
            description ++ u "(" ++ extract_text example ++ u ")"
        | None => description
        end in
      let description :=
        match from with
        | Some f => description ++ open_cite ++ f ++ close_cite
        | None => description
        end in
      description ++ [lf]
  end.

Definition class_is (n : node) (name : string) : bool :=
  match attr_class n with
  | Some c => str_eqb c (u name)
  | None => false
  end.

(** One iteration of [while let Some(child) = children.next()]: the
    remaining iterator and the description buffer. *)
Definition loop_body (child : node) (children : list node) (description : str)
  : list node * str :=
  if class_is child "wrap_ex" then
    let description := description ++ extract_text child in
    match children with
    | child' :: children' =>
        (children', description ++ [space] ++ extract_text child' ++ [lf])
    | [] => ([], description ++ [lf])
    end
  else if class_is child "item_example" then
    (children, fold_left push_li (child_elements child) description)
  else if class_is child "ex_refer" then
    (children,
     fold_left (fun d r => d ++ extract_text r)
       (select (refer Hanja_new) child) (description ++ rui) ++ [lf])
  else (children, description).

(** The [while let] loop, run for at most [fuel] iterations. *)
Fixpoint run_loop (fuel : nat) (children : list node) (description : str) : str :=
  match fuel, children with
  | O, _ => description
  | S fuel', [] => description
  | S fuel', child :: children' =>
      let '(rest, description') := loop_body child children' description in
      run_loop fuel' rest description'
  end.

(** The parser on the flattened content elements; every iteration consumes
    at least one element, so [length children] iterations suffice. *)
Definition describe (children : list node) : str :=
  run_loop (List.length children) children [].

(** [root_element().child_elements().flat_map(|e| e.child_elements())]. *)
Definition content_elements (root : node) : list node :=
  flat_map child_elements (child_elements root).

Definition describe_fragment (root : node) : str :=
  describe (content_elements root).

(** The loop as a transition system on (iterator, buffer). *)
Inductive loop_step : list node * str -> list node * str -> Prop :=
| loop_step_next : forall child children description,
    loop_step (child :: children, description)
              (loop_body child children description).

Inductive loop_run : list node * str -> str -> Prop :=
| loop_run_done : forall description, loop_run ([], description) description
| loop_run_step : forall st st' out,
    loop_step st st' -> loop_run st' out -> loop_run st out.

(** ** Reply formatter (main.rs, lines 172-181) *)

(** A [format!] template: literal pieces and positional arguments. *)
Inductive piece : Type :=
| Lit (s : str)
| Arg (i : nat).

Definition render (template : list piece) (args : list str) : str :=
  List.concat (map (fun p => match p with Lit s => s | Arg i => nth i args [] end)
              template).

(** ["# {hanja}\n**{reading}**\n{description}"]. *)
Definition reply_template : list piece :=
  [Lit (u "# "); Arg 0; Lit [lf; 42; 42]; Arg 1; Lit [42; 42; lf]; Arg 2].

Definition format_reply (hanja reading description : str) : str :=
  render reply_template [hanja; trim reading; description].

(** ** The command handler *)

(** How the handler ends: the final content of the edited reply, an [Err]
    propagated by [?], or a panic. *)
Inductive outcome : Type :=
| Replied (content : str)
| Failed
| Panicked.

(** [search_list] is the search response ([None] when the request fails);
    [fetch_entry] and [fetch_supplement] give the parsed entry page and
    supplement fragment for an entry id ([None] when the request fails). *)
Definition hanja_cmd (hanja : str) (search_list : option str)
  (fetch_entry fetch_supplement : str -> option node) : outcome :=
  match search_list with
  | None => Failed
  | Some sl =>
      match resolve hanja sl with
      | None => Replied (u "No result")
      | Some url_back =>
          match fetch_entry url_back with
          | None => Failed
          | Some document =>
              match extract_reading document with
              | Panic => Panicked
              | Val rd =>
                  match fetch_supplement url_back with
                  | None => Failed
                  | Some fragment =>
                      Replied (format_reply hanja rd (describe_fragment fragment))
                  end
              end
          end
      end
  end.

(** * Spec-side vocabulary *)

(** A run delimited on both sides by U+00A0. *)
Definition is_citation (s : str) : bool :=
  starts_with_char s nbsp && ends_with_char s nbsp.

Fixpoint last_opt {A} (l : list A) : option A :=
  match l with
  | [] => None
  | [a] => Some a
  | _ :: l' => last_opt l'
  end.

(** The phrase: the non-citation runs, concatenated in document order. *)
Definition phrase_of (runs : list str) : str :=
  List.concat (filter (fun s => negb (is_citation s)) runs).

(** The citation: the last citation run, trimmed. *)
Definition citation_of (runs : list str) : option str :=
  option_map trim (last_opt (filter is_citation runs)).

(** The rendering of one item-example list child, as the spec describes
    a [PhraseExample] block. *)
Definition phrase_block (li : node) : str :=
  match hd_error (select (ruby Hanja_new) li) with
  | None => []
  | Some r =>
      u "> " ++ trim (phrase_of (texts r))
      ++ match hd_error (select (reading Hanja_new) li) with
         | Some example => u "(" ++ extract_text example ++ u ")"
         | None => []
         end
      ++ match citation_of (texts r) with
         | Some f => open_cite ++ f ++ close_cite
         | None => []
         end
      ++ [lf]
  end.

(** [pat] first occurs in [s] right after [a], and [b] follows it. *)
Definition first_split (s pat a b : str) : Prop :=
  s = a ++ pat ++ b /\
  forall i, (i < List.length a)%nat -> starts_with (skipn i s) pat = false.

(** ** The handler with its I/O (main.rs, lines 47-183) *)

(** The URLs built from an entry id. *)
Definition search_url : str := u "https://dic.daum.net/search.do".
Definition entry_url_base : str := u "https://dic.daum.net".

(** [format!("https://dic.daum.net/word/view.do?wordid={url_back}")]. *)
Definition entry_url (url_back : str) : str :=
  u "https://dic.daum.net/word/view.do?wordid=" ++ url_back.

Definition supplement_url (url_back : str) : str :=
  u "https://dic.daum.net/word/view_supword.do?suptype=KUMSUNG_HH&wordid="
  ++ url_back.

(** An outgoing [reqwest] GET: URL, [.query] pairs and [.header] pairs. *)
Record request : Type := {
  req_url : str;
  req_query : list (str * str);
  req_headers : list (str * str)
}.

Definition search_request (hanja : str) : request := {|
  req_url := search_url;
  req_query := [(u "dic", u "hanja"); (u "q", hanja)];
  req_headers := []
|}.

Definition entry_request (url_back : str) : request := {|
  req_url := entry_url url_back;
  req_query := [];
  req_headers := []
|}.

Definition supplement_request (url_back : str) : request :=
  let referer := entry_url url_back in {|
  req_url := supplement_url url_back;
  req_query := [];
  req_headers := [(u "Referer", referer)]
|}.

(** The external calls the handler makes, in order. *)
Inductive event : Type :=
| Reply (content : str)
| Edit (content : str)
| Get (r : request).

(** How [hanja] returns: [Ok(())], an [Err] propagated by [?], or a panic. *)
Inductive exit : Type :=
| ExitOk
| ExitErr
| ExitPanic.

Definition placeholder (hanja : str) : str :=
  u "Searching for " ++ hanja ++ u " <a:Loading:1363125483667193998>".

Definition no_result : str := u "No result".

Section Handler.

(** [get r] is the body of the response to [r] ([None] when [send] or
    [text] fails); [parse_document] and [parse_fragment] are
    [Html::parse_document] and [Html::parse_fragment]; [discord_ok e] says
    whether the Discord call [e] ([ctx.reply] or [result.edit]) succeeds. *)
Variable get : request -> option str.
Variables parse_document parse_fragment : str -> node.
Variable discord_ok : event -> bool.

(** The handler: the calls it makes and how it returns. *)
Definition hanja_http (hanja : str) : list event * exit :=
  let e0 := Reply (placeholder hanja) in
  if negb (discord_ok e0) then ([e0], ExitErr) else
  let rs := search_request hanja in
  match get rs with
  | None => ([e0; Get rs], ExitErr)
  | Some search_list =>
      match resolve hanja search_list with
      | None =>
          let e := Edit no_result in
          ([e0; Get rs; e], if discord_ok e then ExitOk else ExitErr)
      | Some url_back =>
          let r1 := entry_request url_back in
          match get r1 with
          | None => ([e0; Get rs; Get r1], ExitErr)
          | Some response =>
              match extract_reading (parse_document response) with
              | Panic => ([e0; Get rs; Get r1], ExitPanic)
              | Val rd =>
                  let r2 := supplement_request url_back in
                  match get r2 with
                  | None => ([e0; Get rs; Get r1; Get r2], ExitErr)
                  | Some response' =>
                      let e := Edit (format_reply hanja rd
                                       (describe_fragment (parse_fragment response'))) in
                      ([e0; Get rs; Get r1; Get r2; e],
                       if discord_ok e then ExitOk else ExitErr)
                  end
              end
          end
      end
  end.

(** The content of the bot's message after the calls of a trace: the last
    reply or edit that succeeded. *)
Fixpoint shown_from (cur : option str) (trace : list event) : option str :=
  match trace with
  | [] => cur
  | (Reply c as e) :: trace' | (Edit c as e) :: trace' =>
      shown_from (if discord_ok e then Some c else cur) trace'
  | Get _ :: trace' => shown_from cur trace'
  end.

Definition shown (trace : list event) : option str := shown_from None trace.

End Handler.

(** The requests of a trace, in order. *)
Definition requests_of (trace : list event) : list request :=
  flat_map (fun e => match e with Get r => [r] | _ => [] end) trace.

(** A trailing line break, or nothing at all. *)
Definition nl_terminated (s : str) : Prop :=
  s = [] \/ exists d, s = d ++ [lf].

(** ** Sample inputs *)

(** A search page whose first candidate is the entry [abc] with the
    headword U+6C34 U+9053, and an entry page without [.txt_read]. *)
Definition sample_search : str :=
  link_marker ++ u "abc" ++ [dquote] ++ emph_marker ++ [27700; 36947].

Definition page_without_reading : node :=
  Elem None [Elem (Some (u "txt_mean")) [Text (u "water")]].

Definition page_with_reading : node :=
  Elem None [Elem (Some (u "box")) [Elem (Some (u "txt_read")) [Text (u " su ")];
                                    Elem (Some (u "txt_read")) [Text (u "no")]]].

(** Supplement content elements. *)
Definition sample_wrap : node := Elem (Some (u "wrap_ex")) [Text (u " a ")].
Definition sample_next : node := Elem (Some (u "item_example")) [Text (u "b")].

Definition sample_li : node :=
  Elem None [Elem (Some (u "desc_ruby"))
               [Text (u "ph"); Text [nbsp; 88; nbsp]; Text (u "rase ")];
             Elem (Some (u "desc_ex")) [Text (u " rd ")]].

Definition sample_items : node :=
  Elem (Some (u "item_example")) [sample_li; Elem None [Text (u "no")]].

Definition sample_refer : node :=
  Elem (Some (u "ex_refer"))
    [Elem (Some (u "txt_refer on")) [Text (u " A ")]; Text (u "see");
     Elem (Some (u "txt_refer")) [Text (u "off")];
     Elem (Some (u "on txt_refer")) [Text (u "B")]].

Definition sample_unknown : node :=
  Elem (Some (u "wrap_ex extra")) [Text (u "x")].

Definition sample_fragment : node :=
  Elem None [Elem None [sample_unknown; sample_wrap; sample_next];
             Elem None [sample_refer]].

(** A dictionary site that knows the entry [abc] of [sample_search]. *)
Definition sample_get (r : request) : option str :=
  if str_eqb (req_url r) search_url then Some sample_search
  else if str_eqb (req_url r) (entry_url (u "abc")) then Some (u "entry")
  else if str_eqb (req_url r) (supplement_url (u "abc")) then Some (u "supplement")
  else None.


(** * Lemmas *)

Section LoopLemmas.

Lemma fold_left_push {A} (f : str -> A -> str) (g : A -> str) :
  (forall acc a, f acc a = acc ++ g a) ->
  forall l acc, fold_left f l acc = acc ++ List.concat (map g l).
Proof.
  intros Hf l; induction l as [|a l IH]; intros acc; simpl.
  - now rewrite app_nil_r.
  - now rewrite IH, Hf, app_assoc.
Qed.

Lemma last_opt_cons {A} : forall (x : A) l,
  last_opt (x :: l) =
  match last_opt l with Some y => Some y | None => Some x end.
Proof.
  intros x l; revert x; induction l as [|y l IH]; intros x; [reflexivity|].
  change (last_opt (x :: y :: l)) with (last_opt (y :: l)).
  rewrite IH. destruct (last_opt l); reflexivity.
Qed.

Lemma ruby_loop_spec : forall runs from phrase,
  ruby_loop runs from phrase =
  (match last_opt (filter is_citation runs) with
   | Some s => Some (trim s)
   | None => from
   end, phrase ++ phrase_of runs).
Proof.
  unfold phrase_of.
  induction runs as [|s runs IH]; intros from phrase.
  - simpl. now rewrite app_nil_r.
  - cbn [ruby_loop filter].
    change (starts_with_char s nbsp && ends_with_char s nbsp)
      with (is_citation s).
    destruct (is_citation s) eqn:Hc; rewrite IH; cbn [negb].
    + f_equal. rewrite last_opt_cons.
      destruct (last_opt (filter is_citation runs)); reflexivity.
    + cbn [List.concat]. now rewrite app_assoc.
Qed.

Lemma push_li_spec : forall d li, push_li d li = d ++ phrase_block li.
Proof.
  intros d li; unfold push_li, phrase_block.
  destruct (hd_error (select (ruby Hanja_new) li)) as [r|];
    [|now rewrite app_nil_r].
  rewrite ruby_loop_spec; unfold citation_of.
  destruct (hd_error (select (reading Hanja_new) li));
    destruct (last_opt (filter is_citation (texts r))); cbn [option_map app];
    now repeat rewrite <- app_assoc.
Qed.

Lemma loop_body_shrinks : forall c cs d,
  (List.length (fst (loop_body c cs d)) <= List.length cs)%nat.
Proof.
  intros c cs d; unfold loop_body.
  destruct (class_is c "wrap_ex"); [destruct cs; simpl; lia|].
  destruct (class_is c "item_example"); [simpl; lia|].
  destruct (class_is c "ex_refer"); simpl; lia.
Qed.

Lemma loop_body_app : forall c cs d,
  loop_body c cs d = (fst (loop_body c cs []), d ++ snd (loop_body c cs [])).
Proof.
  intros c cs d; unfold loop_body.
  destruct (class_is c "wrap_ex").
  { destruct cs; simpl; now repeat rewrite <- app_assoc. }
  destruct (class_is c "item_example").
  { simpl. rewrite !(fold_left_push _ phrase_block push_li_spec). reflexivity. }
  destruct (class_is c "ex_refer"); simpl; [|now rewrite app_nil_r].
  rewrite !(fold_left_push (fun d r => d ++ extract_text r) extract_text)
    by reflexivity.
  now repeat rewrite <- app_assoc.
Qed.

Lemma run_loop_fuel : forall n m cs d,
  (List.length cs <= n)%nat -> (List.length cs <= m)%nat ->
  run_loop n cs d = run_loop m cs d.
Proof.
  induction n as [|n IH]; intros m cs d Hn Hm.
  - destruct cs; simpl in Hn; [|lia]. destruct m; reflexivity.
  - destruct m as [|m].
    + destruct cs; simpl in Hm; [reflexivity|lia].
    + destruct cs as [|c cs]; [reflexivity|]. simpl in Hn, Hm |- *.
      pose proof (loop_body_shrinks c cs d).
      destruct (loop_body c cs d) as [rest d'] eqn:E. simpl in H.
      apply IH; lia.
Qed.

Lemma run_loop_app : forall n cs d, run_loop n cs d = d ++ run_loop n cs [].
Proof.
  induction n as [|n IH]; intros cs d; simpl.
  - now rewrite app_nil_r.
  - destruct cs as [|c cs]; [now rewrite app_nil_r|].
    rewrite (loop_body_app c cs d), (loop_body_app c cs []).
    simpl. rewrite IH, (IH _ (snd (loop_body c cs []))).
    now rewrite app_assoc.
Qed.

Lemma describe_cons : forall c cs,
  describe (c :: cs) =
  snd (loop_body c cs []) ++ describe (fst (loop_body c cs [])).
Proof.
  intros c cs; unfold describe; simpl.
  pose proof (loop_body_shrinks c cs []).
  destruct (loop_body c cs []) as [rest d'] eqn:E; simpl in *.
  rewrite run_loop_app.
  f_equal. apply run_loop_fuel; lia.
Qed.

Lemma class_is_some : forall c name,
  attr_class c = Some (u name) ->
  forall other, class_is c other = str_eqb (u name) (u other).
Proof. intros c name H other; unfold class_is; now rewrite H. Qed.

End LoopLemmas.

Lemma class_is_true : forall c name,
  class_is c name = true <-> attr_class c = Some (u name).
Proof.
  intros c name; unfold class_is.
  destruct (attr_class c) as [s|]; [|split; discriminate].
  rewrite str_eqb_eq; split; congruence.
Qed.

Lemma class_is_false : forall c name,
  attr_class c <> Some (u name) -> class_is c name = false.
Proof.
  intros c name H.
  destruct (class_is c name) eqn:E; [|reflexivity].
  apply class_is_true in E; contradiction.
Qed.

Ltac app_norm :=
  repeat (rewrite <- app_assoc || rewrite <- app_comm_cons); simpl.

Lemma describe_nil : describe [] = [].
Proof. reflexivity. Qed.

Lemma loop_step_deterministic : forall st st1 st2,
  loop_step st st1 -> loop_step st st2 -> st1 = st2.
Proof.
  intros st st1 st2 H1 H2; inversion H1; subst; inversion H2; subst.
  reflexivity.
Qed.

Lemma loop_run_run_loop : forall cs d out,
  loop_run (cs, d) out <-> out = run_loop (List.length cs) cs d.
Proof.
  intros cs d out; split.
  - intros H; remember (cs, d) as st eqn:Est; revert cs d Est.
    induction H as [d0|st st' out Hs Hr IH]; intros cs d Est.
    + inversion Est; subst; reflexivity.
    + destruct Hs as [child children description].
      injection Est as <- <-. simpl.
      pose proof (loop_body_shrinks child children description) as Hsh.
      destruct (loop_body child children description) as [rest d'] eqn:E.
      simpl in Hsh. rewrite (IH rest d' eq_refl).
      apply run_loop_fuel; lia.
  - intros ->. remember (List.length cs) as n eqn:En.
    assert (Hle : (List.length cs <= n)%nat) by lia. clear En.
    revert cs d Hle; induction n as [|n IH]; intros cs d Hle.
    + destruct cs; simpl in Hle; [constructor|lia].
    + destruct cs as [|c cs]; [constructor|]. simpl in Hle |- *.
      pose proof (loop_body_shrinks c cs d) as Hsh.
      destruct (loop_body c cs d) as [rest d'] eqn:E. simpl in Hsh.
      apply loop_run_step with (rest, d').
      * rewrite <- E; constructor.
      * apply IH; lia.
Qed.

(** * Claims *)

(** C2: a [wrap_ex] content element contributes its trimmed text; when a
    next content element exists it is consumed, its trimmed text follows
    after exactly one space on the same line, and the line ends with a line
    break; parsing resumes after the consumed element, which is never
    classified.  A [wrap_ex] element that is the last one is emitted alone. *)
Theorem wrap_ex_merges_next : forall c,
  attr_class c = Some (u "wrap_ex") ->
  (forall c' rest,
     describe (c :: c' :: rest) =
     extract_text c ++ [space] ++ extract_text c' ++ [lf] ++ describe rest) /\
  describe [c] = extract_text c ++ [lf].
Proof.
  intros c Hc.
  assert (Hw : class_is c "wrap_ex" = true) by now apply class_is_true.
  split.
  - intros c' rest. rewrite describe_cons. unfold loop_body; rewrite Hw.
    simpl. app_norm. reflexivity.
  - rewrite describe_cons. unfold loop_body; rewrite Hw.
    simpl. rewrite describe_nil, app_nil_r.
    reflexivity.
Qed.

(** C4: an [item_example] content element emits, for each of its child
    elements in order, one phrase-example block when the child has a
    [desc_ruby] descendant: the bullet ["> "], the trimmed phrase, then
    ["(" reading ")"] when a [desc_ex] descendant exists, then the citation
    between [" 《"] and ["》"] when one was found, then a line break.  A child
    without a [desc_ruby] descendant contributes nothing. *)
Theorem item_example_blocks : forall c rest,
  attr_class c = Some (u "item_example") ->
  describe (c :: rest) =
  List.concat (map phrase_block (child_elements c)) ++ describe rest.
Proof.
  intros c rest Hc.
  assert (Hw : class_is c "wrap_ex" = false)
    by (apply class_is_false; rewrite Hc; discriminate).
  assert (Hi : class_is c "item_example" = true) by now apply class_is_true.
  rewrite describe_cons. unfold loop_body; rewrite Hw, Hi.
  cbn [fst snd]. now rewrite (fold_left_push _ phrase_block push_li_spec).
Qed.

(** C5: an [ex_refer] content element emits the glyph marker followed by
    the trimmed texts of its [.txt_refer.on] descendants, in document order
    and with no separator, then a line break. *)
Theorem ex_refer_block : forall c rest,
  attr_class c = Some (u "ex_refer") ->
  describe (c :: rest) =
  rui ++ List.concat (map extract_text (select (refer Hanja_new) c))
  ++ [lf] ++ describe rest.
Proof.
  intros c rest Hc.
  assert (Hw : class_is c "wrap_ex" = false)
    by (apply class_is_false; rewrite Hc; discriminate).
  assert (Hi : class_is c "item_example" = false)
    by (apply class_is_false; rewrite Hc; discriminate).
  assert (He : class_is c "ex_refer" = true) by now apply class_is_true.
  rewrite describe_cons. unfold loop_body; rewrite Hw, Hi, He.
  cbn [fst snd].
  rewrite (fold_left_push (fun d r => d ++ extract_text r) extract_text)
    by reflexivity.
  now repeat rewrite <- app_assoc.
Qed.

(** C7: a content element whose class is none of [wrap_ex], [item_example]
    and [ex_refer] contributes nothing, and parsing goes on with the next
    element (the parser is total: it has no error outcome). *)
Theorem unknown_class_skipped : forall c rest,
  attr_class c <> Some (u "wrap_ex") ->
  attr_class c <> Some (u "item_example") ->
  attr_class c <> Some (u "ex_refer") ->
  describe (c :: rest) = describe rest.
Proof.
  intros c rest H1 H2 H3.
  rewrite describe_cons. unfold loop_body.
  rewrite !class_is_false by assumption. reflexivity.
Qed.

(** C9: the parser loop, seen as a transition system, reaches exactly one
    final description from a supplement fragment (the one [describe_fragment]
    computes), so the reply built from it is the same on every run. *)
Theorem parser_deterministic : forall doc,
  (forall out,
     loop_run (content_elements doc, []) out <-> out = describe_fragment doc) /\
  (forall hanja rd out1 out2,
     loop_run (content_elements doc, []) out1 ->
     loop_run (content_elements doc, []) out2 ->
     format_reply hanja rd out1 = format_reply hanja rd out2).
Proof.
  intros doc.
  assert (Hr : forall out,
    loop_run (content_elements doc, []) out <-> out = describe_fragment doc)
    by (intros out; apply loop_run_run_loop).
  split; [exact Hr|].
  intros hanja rd out1 out2 H1 H2.
  apply Hr in H1; apply Hr in H2; now subst.
Qed.

Section RubyLemmas.

Lemma last_opt_app {A} : forall (l1 l2 : list A),
  last_opt (l1 ++ l2) =
  match last_opt l2 with Some y => Some y | None => last_opt l1 end.
Proof.
  induction l1 as [|x l1 IH]; intros l2.
  - simpl. destruct (last_opt l2); reflexivity.
  - change ((x :: l1) ++ l2) with (x :: (l1 ++ l2)).
    rewrite last_opt_cons, IH, last_opt_cons.
    destruct (last_opt l2); reflexivity.
Qed.

Lemma existsb_filter_nonempty {A} (f : A -> bool) : forall l,
  existsb f l = true -> exists y, last_opt (filter f l) = Some y.
Proof.
  induction l as [|x l IH]; [discriminate|].
  intros H. cbn [existsb filter] in *. destruct (f x) eqn:Fx.
  - rewrite last_opt_cons.
    destruct (last_opt (filter f l)) as [y|]; eauto.
  - apply IH; exact H.
Qed.

Lemma existsb_false_filter {A} (f : A -> bool) : forall l,
  existsb f l = false -> filter f l = [].
Proof.
  induction l as [|x l IH]; simpl; [reflexivity|].
  intros H. apply orb_false_iff in H as [H1 H2]. rewrite H1. auto.
Qed.

Lemma is_citation_shape : forall s,
  is_citation s = true <-> s = [nbsp] \/ exists m, s = nbsp :: m ++ [nbsp].
Proof.
  intros s; unfold is_citation, ends_with_char, starts_with_char.
  split.
  - destruct s as [|c s']; [discriminate|].
    destruct s' as [|x m] using rev_ind; intros H.
    + simpl in H. apply andb_prop in H as [H _].
      apply Z.eqb_eq in H; subst; now left.
    + cbn [rev] in H. rewrite rev_app_distr in H. simpl in H.
      apply andb_prop in H as [H1 H2].
      apply Z.eqb_eq in H1; apply Z.eqb_eq in H2; subst.
      right; now exists m.
  - intros [-> | [m ->]]; [reflexivity|].
    cbn [rev]. rewrite rev_app_distr. simpl. reflexivity.
Qed.

End RubyLemmas.

(** C1 (as the code does it): runs delimited on both sides by U+00A0 (a
    run of the form [nbsp] or [nbsp :: m ++ [nbsp]]) never enter the phrase;
    the citation is the LAST such run, with all surrounding whitespace
    trimmed ([str::trim], which removes the U+00A0s and any other Unicode
    whitespace next to them); every other run is concatenated into the
    phrase in document order, unsorted and with repetitions kept. *)
Theorem ruby_citation_split :
  (forall runs, ruby_loop runs None [] = (citation_of runs, phrase_of runs)) /\
  (forall s, is_citation s = true <->
             s = [nbsp] \/ exists m, s = nbsp :: m ++ [nbsp]).
Proof.
  split; [|exact is_citation_shape].
  intros runs; rewrite ruby_loop_spec; unfold citation_of.
  destruct (last_opt (filter is_citation runs)); reflexivity.
Qed.

(** C1: the claim as stated fails.  With two citation runs, the first one is
    not the citation, and the citation keeps no space that followed the
    opening U+00A0: stripping only the enclosing U+00A0s would give
    [" B"], [trim] gives ["B"]. *)
Lemma ruby_citation_counterexample :
  let runs := [[nbsp; 65; nbsp]; [nbsp; 32; 66; nbsp]] in
  is_citation (nth 0 runs []) = true /\
  fst (ruby_loop runs None []) <> Some (removelast (tl (nth 0 runs []))) /\
  fst (ruby_loop runs None []) <> Some (removelast (tl (nth 1 runs []))).
Proof. vm_compute. split; [reflexivity|split; discriminate]. Qed.

(** C10: a citation run followed by another citation run is dropped
    entirely (the result is the same as without it); the last citation run
    is the citation; a run that is a single U+00A0 is a citation run and
    gives the empty citation. *)
Theorem last_citation_wins :
  (forall pre r rest,
     is_citation r = true -> existsb is_citation rest = true ->
     ruby_loop (pre ++ r :: rest) None [] = ruby_loop (pre ++ rest) None []) /\
  (forall pre r post,
     is_citation r = true -> existsb is_citation post = false ->
     fst (ruby_loop (pre ++ r :: post) None []) = Some (trim r)) /\
  ruby_loop [[nbsp]] None [] = (Some [], []).
Proof.
  split; [|split].
  - intros pre r rest Hr Hrest.
    rewrite !ruby_loop_spec. unfold phrase_of.
    rewrite !filter_app. cbn [filter]. rewrite Hr. cbn [negb].
    rewrite !last_opt_app, last_opt_cons.
    destruct (existsb_filter_nonempty _ _ Hrest) as [y ->].
    reflexivity.
  - intros pre r post Hr Hpost.
    rewrite ruby_loop_spec. simpl fst.
    rewrite filter_app. cbn [filter]. rewrite Hr.
    rewrite (existsb_false_filter _ _ Hpost), last_opt_app. reflexivity.
  - reflexivity.
Qed.

Section SplitOnce.

Lemma starts_with_app : forall pat t, starts_with (pat ++ t) pat = true.
Proof.
  induction pat as [|p pat IH]; intros t; [destruct t; reflexivity|].
  simpl. now rewrite Z.eqb_refl, IH.
Qed.

Lemma starts_with_split : forall s pat,
  starts_with s pat = true -> s = pat ++ skipn (List.length pat) s.
Proof.
  intros s pat; revert s; induction pat as [|p pat IH]; intros s H;
    [reflexivity|].
  destruct s as [|c s]; [discriminate|]. simpl in H.
  apply andb_prop in H as [H1 H2]. apply Z.eqb_eq in H1; subst.
  simpl. f_equal. now apply IH.
Qed.

Lemma skipn_length_app : forall (pat b : str),
  skipn (List.length pat) (pat ++ b) = b.
Proof. induction pat; simpl; auto. Qed.

Lemma split_once_unfold : forall s pat,
  split_once s pat =
  if starts_with s pat then Some ([], skipn (List.length pat) s)
  else match s with
       | [] => None
       | c :: s' =>
           match split_once s' pat with
           | Some (a, b) => Some (c :: a, b)
           | None => None
           end
       end.
Proof. intros [|c s] pat; reflexivity. Qed.

Lemma split_once_first_split : forall s pat a b,
  split_once s pat = Some (a, b) <-> first_split s pat a b.
Proof.
  intros s pat a b; split.
  - revert a b; induction s as [|c s IH]; intros a b H;
      rewrite split_once_unfold in H.
    + destruct (starts_with [] pat) eqn:Hs; [|discriminate].
      injection H as <- <-. split; [|simpl; lia].
      now apply starts_with_split.
    + destruct (starts_with (c :: s) pat) eqn:Hs.
      * injection H as <- <-. split; [|simpl; lia].
        now apply starts_with_split.
      * destruct (split_once s pat) as [[a' b']|] eqn:E; [|discriminate].
        injection H as <- <-. destruct (IH a' b' eq_refl) as [Heq Hfirst].
        split; [simpl; now rewrite Heq|].
        intros [|i] Hi; [exact Hs|]. simpl in Hi |- *. apply Hfirst; lia.
  - intros [Heq Hfirst]; subst s. revert b Hfirst.
    induction a as [|c a IH]; intros b Hfirst.
    + change ([] ++ pat ++ b) with (pat ++ b).
      rewrite split_once_unfold, starts_with_app.
      now rewrite skipn_length_app.
    + change ((c :: a) ++ pat ++ b) with (c :: (a ++ pat ++ b)) in *.
      assert (H0 : (0 < List.length (c :: a))%nat) by (simpl; lia).
      specialize (Hfirst 0%nat) as Hs0. simpl skipn in Hs0.
      rewrite split_once_unfold, (Hs0 H0).
      rewrite IH; [reflexivity|].
      intros i Hi. apply (Hfirst (S i)). simpl; lia.
Qed.

End SplitOnce.

(** C3: the resolver returns an entry id exactly when, taking the FIRST
    occurrence of [/word/view.do?wordid=], the id runs up to the first
    following double-quote character, and the text after the first
    following [emph_marker] starts with the query (a prefix test).  When the
    first candidate's headword does not start with the query the result is
    [None] (NotFound), whatever the rest of the page contains. *)
Theorem resolve_first_candidate :
  (forall hanja search_list url_back,
     resolve hanja search_list = Some url_back <->
     exists pre link_start rest pre' x,
       first_split search_list link_marker pre link_start /\
       first_split link_start [dquote] url_back rest /\
       first_split rest emph_marker pre' x /\
       starts_with x hanja = true) /\
  (forall hanja search_list pre link_start url_back rest pre' x,
     first_split search_list link_marker pre link_start ->
     first_split link_start [dquote] url_back rest ->
     first_split rest emph_marker pre' x ->
     starts_with x hanja = false ->
     resolve hanja search_list = None).
Proof.
  split.
  - intros hanja search_list url_back; unfold resolve; split.
    + destruct (split_once search_list link_marker) as [[pre ls]|] eqn:E1;
        [|discriminate].
      destruct (split_once ls [dquote]) as [[ub rest]|] eqn:E2; [|discriminate].
      destruct (split_once rest emph_marker) as [[pre' x]|] eqn:E3;
        [|discriminate].
      destruct (starts_with x hanja) eqn:Hx; [|discriminate].
      intros H; injection H as <-.
      exists pre, ls, rest, pre', x.
      rewrite <- !split_once_first_split. auto.
    + intros (pre & ls & rest & pre' & x & H1 & H2 & H3 & Hx).
      apply split_once_first_split in H1, H2, H3.
      now rewrite H1, H2, H3, Hx.
  - intros hanja search_list pre ls url_back rest pre' x H1 H2 H3 Hx.
    apply split_once_first_split in H1, H2, H3.
    unfold resolve. now rewrite H1, H2, H3, Hx.
Qed.

(** C6 (as the code does it): the reading is the concatenation of the
    descendant text nodes of the first [.txt_read] element of the entry
    page; when there is none, [unwrap] panics, and the handler ends in that
    panic, neither with an [Err] result nor with a reply. *)
Theorem reading_unwrap_panics :
  (forall document,
     extract_reading document = Panic <->
     html_select (read Hanja_new) document = []) /\
  (forall document e rest,
     html_select (read Hanja_new) document = e :: rest ->
     extract_reading document = Val (List.concat (texts e))) /\
  (forall hanja sl fetch_entry fetch_supplement url_back document,
     resolve hanja sl = Some url_back ->
     fetch_entry url_back = Some document ->
     html_select (read Hanja_new) document = [] ->
     hanja_cmd hanja (Some sl) fetch_entry fetch_supplement = Panicked).
Proof.
  split; [|split].
  - intros document; unfold extract_reading.
    destruct (html_select (read Hanja_new) document); simpl;
      split; congruence.
  - intros document e rest H; unfold extract_reading; now rewrite H.
  - intros hanja sl fe fs url_back document H1 H2 H3.
    unfold hanja_cmd, extract_reading. now rewrite H1, H2, H3.
Qed.

(** C6: the claim as stated fails: with no [.txt_read] element the handler
    panics instead of returning an explicit error. *)
Lemma reading_missing_counterexample :
  html_select (read Hanja_new) page_without_reading = [] /\
  hanja_cmd [27700] (Some sample_search)
    (fun _ => Some page_without_reading) (fun _ => Some (Elem None [])) =
  Panicked /\
  hanja_cmd [27700] (Some sample_search)
    (fun _ => Some page_without_reading) (fun _ => Some (Elem None [])) <>
  Failed.
Proof. vm_compute. split; [reflexivity|split; [reflexivity|discriminate]]. Qed.

Section TrimLemmas.

Lemma trim_start_idem : forall s, trim_start (trim_start s) = trim_start s.
Proof.
  induction s as [|c s IH]; [reflexivity|]. simpl.
  destruct (is_whitespace c) eqn:E; [exact IH|]. simpl; now rewrite E.
Qed.

Lemma trim_start_head : forall s,
  trim_start s = [] \/
  exists c t, trim_start s = c :: t /\ is_whitespace c = false.
Proof.
  induction s as [|c s IH]; [now left|]. simpl.
  destruct (is_whitespace c) eqn:E; [exact IH|]. right; eauto.
Qed.

Lemma trim_start_suffix : forall s, exists p, s = p ++ trim_start s.
Proof.
  induction s as [|c s [p Hp]]; [now exists []|]. simpl.
  destruct (is_whitespace c); [exists (c :: p); simpl; now f_equal|].
  now exists [].
Qed.

Lemma trim_idem : forall s, trim (trim s) = trim s.
Proof.
  intros s; unfold trim, trim_end.
  destruct (trim_start_suffix (rev (trim_start s))) as [q Hq].
  remember (trim_start (rev (trim_start s))) as y eqn:Ey.
  assert (Hy : trim_start (rev y) = rev y).
  { assert (Hx : trim_start s = rev y ++ rev q)
      by (rewrite <- rev_app_distr, <- Hq, rev_involutive; reflexivity).
    destruct (rev y) as [|c t] eqn:Er; [reflexivity|].
    destruct (trim_start_head s) as [H0|(c' & t' & H1 & H2)].
    - rewrite H0 in Hx; discriminate.
    - rewrite H1 in Hx. injection Hx as -> _. simpl; now rewrite H2. }
  rewrite Hy, rev_involutive, Ey, trim_start_idem. reflexivity.
Qed.

End TrimLemmas.

(** C8: the reply is the heading line ["# " ++ query], then the reading,
    trimmed, between [**] and [**] on its own line, then the description
    unchanged (the concatenated, already newline-terminated blocks).  The
    formatter is a total function; the trimmed reading has no surrounding
    whitespace left, and an empty reading stays empty. *)
Theorem format_reply_layout :
  (forall hanja rd description,
     format_reply hanja rd description =
     u "# " ++ hanja ++ [lf] ++ u "**" ++ trim rd ++ u "**" ++ [lf]
     ++ description) /\
  (forall rd, trim (trim rd) = trim rd) /\
  (forall hanja description,
     format_reply hanja [] description =
     u "# " ++ hanja ++ [lf] ++ u "****" ++ [lf] ++ description).
Proof.
  assert (H : forall hanja rd description,
     format_reply hanja rd description =
     u "# " ++ hanja ++ [lf] ++ u "**" ++ trim rd ++ u "**" ++ [lf]
     ++ description).
  { intros hanja rd description.
    unfold format_reply, render, reply_template. simpl.
    rewrite app_nil_r. app_norm. reflexivity. }
  split; [exact H|split; [exact trim_idem|]].
  intros hanja description. rewrite H. reflexivity.
Qed.

(** * Witnesses *)

Lemma ruby_citation_split_witness :
  ruby_loop [u "ph"; [nbsp; 88; nbsp]; u "rase"] None [] = (Some [88], u "phrase").
Proof. rewrite (proj1 ruby_citation_split). vm_compute. reflexivity. Defined.

Lemma wrap_ex_merges_next_witness :
  attr_class sample_wrap = Some (u "wrap_ex") /\
  describe [sample_wrap; sample_next] = u "a b" ++ [lf] /\
  describe [sample_wrap] = u "a" ++ [lf].
Proof.
  split; [reflexivity|split].
  - rewrite (proj1 (wrap_ex_merges_next sample_wrap eq_refl) sample_next []).
    vm_compute. reflexivity.
  - rewrite (proj2 (wrap_ex_merges_next sample_wrap eq_refl)).
    vm_compute. reflexivity.
Defined.

Lemma resolve_first_candidate_witness :
  resolve [27700] sample_search = Some (u "abc") /\
  resolve [36947] sample_search = None.
Proof.
  split.
  - apply (proj2 (proj1 resolve_first_candidate [27700] sample_search (u "abc"))).
    exists [], (u "abc" ++ [dquote] ++ emph_marker ++ [27700; 36947]),
      (emph_marker ++ [27700; 36947]), [], [27700; 36947].
    split; [split; [reflexivity|intros i Hi; simpl in Hi; lia]|].
    split; [split; [reflexivity|]|].
    + intros i Hi. destruct i as [|[|[|i]]]; try reflexivity.
      vm_compute in Hi. lia.
    + split; [split; [reflexivity|intros i Hi; simpl in Hi; lia]|reflexivity].
  - apply ((proj2 resolve_first_candidate) [36947] sample_search []
      (u "abc" ++ [dquote] ++ emph_marker ++ [27700; 36947]) (u "abc")
      (emph_marker ++ [27700; 36947]) [] [27700; 36947]).
    + split; [reflexivity|intros i Hi; simpl in Hi; lia].
    + split; [reflexivity|].
      intros i Hi. destruct i as [|[|[|i]]]; try reflexivity.
      vm_compute in Hi. lia.
    + split; [reflexivity|intros i Hi; simpl in Hi; lia].
    + reflexivity.
Defined.

Lemma item_example_blocks_witness :
  attr_class sample_items = Some (u "item_example") /\
  describe [sample_items] =
  u "> phrase(rd)" ++ open_cite ++ u "X" ++ close_cite ++ [lf].
Proof.
  split; [reflexivity|].
  rewrite (item_example_blocks sample_items [] eq_refl).
  vm_compute. reflexivity.
Defined.

Lemma ex_refer_block_witness :
  attr_class sample_refer = Some (u "ex_refer") /\
  describe [sample_refer] = rui ++ u "AB" ++ [lf].
Proof.
  split; [reflexivity|].
  rewrite (ex_refer_block sample_refer [] eq_refl).
  vm_compute. reflexivity.
Defined.

Lemma reading_unwrap_panics_witness :
  extract_reading page_with_reading = Val (u " su ") /\
  hanja_cmd [27700] (Some sample_search)
    (fun _ => Some page_without_reading) (fun _ => Some sample_fragment) =
  Panicked.
Proof.
  split.
  - apply (proj1 (proj2 reading_unwrap_panics) page_with_reading
             (Elem (Some (u "txt_read")) [Text (u " su ")])
             [Elem (Some (u "txt_read")) [Text (u "no")]]).
    vm_compute. reflexivity.
  - apply (proj2 (proj2 reading_unwrap_panics) [27700] sample_search
             (fun _ => Some page_without_reading) (fun _ => Some sample_fragment)
             (u "abc") page_without_reading);
      vm_compute; reflexivity.
Defined.

Lemma unknown_class_skipped_witness :
  describe [sample_unknown; sample_wrap] = describe [sample_wrap].
Proof.
  apply unknown_class_skipped; intro H; vm_compute in H; discriminate H.
Defined.

Lemma parser_deterministic_witness :
  loop_run (content_elements sample_fragment, []) (u "a b" ++ [lf] ++ rui ++ u "AB" ++ [lf]) /\
  format_reply [27700] (u " su ") (u "a b" ++ [lf] ++ rui ++ u "AB" ++ [lf]) =
  format_reply [27700] (u " su ") (describe_fragment sample_fragment).
Proof.
  assert (Hr : loop_run (content_elements sample_fragment, [])
                 (u "a b" ++ [lf] ++ rui ++ u "AB" ++ [lf]))
    by (apply (proj2 (proj1 (parser_deterministic sample_fragment) _));
        vm_compute; reflexivity).
  split; [exact Hr|].
  apply (proj2 (parser_deterministic sample_fragment)); [exact Hr|].
  apply (proj2 (proj1 (parser_deterministic sample_fragment) _)); reflexivity.
Defined.

Lemma last_citation_wins_witness :
  ruby_loop ([u "p"] ++ [nbsp; 65; nbsp] :: [u "q"; [nbsp; 66; nbsp]]) None [] =
  ruby_loop ([u "p"] ++ [u "q"; [nbsp; 66; nbsp]]) None [] /\
  fst (ruby_loop ([u "p"] ++ [nbsp; 66; nbsp] :: [u "q"]) None []) = Some [66].
Proof.
  split.
  - apply (proj1 last_citation_wins); reflexivity.
  - exact (proj1 (proj2 last_citation_wins) [u "p"] [nbsp; 66; nbsp] [u "q"]
             eq_refl eq_refl).
Defined.

(** * Further properties of the code *)

Section ResolverExtras.

Lemma starts_with_nil : forall s, starts_with s [] = true.
Proof. intros [|c s]; reflexivity. Qed.

Lemma split_once_char_no_char : forall s c a b,
  split_once s [c] = Some (a, b) -> ~ In c a.
Proof.
  induction s as [|d s IH]; intros c a b H; rewrite split_once_unfold in H.
  - destruct (starts_with [] [c]); [|discriminate].
    injection H as <- _. simpl; tauto.
  - cbn [starts_with] in H.
    destruct (c =? d) eqn:E; simpl in H.
    { assert (Hn : starts_with s [] = true) by (destruct s; reflexivity).
      rewrite Hn in H. injection H as <- _. simpl; tauto. }
    destruct (split_once s [c]) as [[a' b']|] eqn:E'; [|discriminate].
    injection H as <- <-. intros [Hd|Hin].
    + subst; now rewrite Z.eqb_refl in E.
    + exact (IH c a' b' E' Hin).
Qed.

Lemma starts_with_prefix_trans : forall x q q',
  starts_with x q = true -> starts_with q q' = true -> starts_with x q' = true.
Proof.
  intros x q; revert x; induction q as [|a q IH]; intros x q' H1 H2.
  - destruct q'; [apply starts_with_nil|discriminate].
  - destruct x as [|b x]; [discriminate|].
    destruct q' as [|a' q']; [apply starts_with_nil|].
    simpl in *. apply andb_prop in H1 as [H1 H1'], H2 as [H2 H2'].
    apply Z.eqb_eq in H1, H2; subst.
    rewrite Z.eqb_refl; simpl. eauto.
Qed.

Lemma starts_with_app_long : forall l t pat,
  (List.length pat <= List.length l)%nat ->
  starts_with (l ++ t) pat = starts_with l pat.
Proof.
  intros l t pat; revert l; induction pat as [|p pat IH]; intros l H;
    [now rewrite !starts_with_nil|].
  destruct l as [|c l]; simpl in H; [lia|].
  simpl. rewrite IH by lia. reflexivity.
Qed.

Lemma starts_with_app_true : forall l t pat,
  starts_with l pat = true -> starts_with (l ++ t) pat = true.
Proof.
  intros l t pat; revert l; induction pat as [|p pat IH]; intros l H;
    [apply starts_with_nil|].
  destruct l as [|c l]; [discriminate|].
  simpl in *. apply andb_prop in H as [H1 H2]. rewrite H1; simpl; auto.
Qed.

Lemma first_split_app : forall s pat a b t,
  first_split s pat a b -> first_split (s ++ t) pat a (b ++ t).
Proof.
  intros s pat a b t [Heq Hfirst]. split.
  - subst s. now rewrite <- !app_assoc.
  - intros i Hi. rewrite skipn_app.
    assert (Hl : List.length s = (List.length a + List.length pat + List.length b)%nat)
      by (subst s; rewrite !length_app; lia).
    replace (i - List.length s)%nat with 0%nat by lia. simpl skipn at 2.
    rewrite starts_with_app_long by (rewrite length_skipn; lia).
    now apply Hfirst.
Qed.

End ResolverExtras.

(** The entry id the resolver returns never contains a double quote: it
    is cut at the first one after the link marker. *)
Theorem resolve_id_no_quote : forall hanja search_list url_back,
  resolve hanja search_list = Some url_back -> ~ In dquote url_back.
Proof.
  intros hanja sl url_back; unfold resolve.
  destruct (split_once sl link_marker) as [[pre ls]|]; [|discriminate].
  destruct (split_once ls [dquote]) as [[ub rest]|] eqn:E; [|discriminate].
  destruct (split_once rest emph_marker) as [[pre' x]|]; [|discriminate].
  destruct (starts_with x hanja); [|discriminate].
  intros H; injection H as <-. exact (split_once_char_no_char _ _ _ _ E).
Qed.

(** A query accepted for a page is accepted, with the same entry id, for
    every prefix of it (the empty query included). *)
Theorem resolve_query_prefix : forall hanja hanja' search_list url_back,
  resolve hanja search_list = Some url_back ->
  starts_with hanja hanja' = true ->
  resolve hanja' search_list = Some url_back.
Proof.
  intros hanja hanja' sl url_back; unfold resolve.
  destruct (split_once sl link_marker) as [[pre ls]|]; [|discriminate].
  destruct (split_once ls [dquote]) as [[ub rest]|]; [|discriminate].
  destruct (split_once rest emph_marker) as [[pre' x]|]; [|discriminate].
  destruct (starts_with x hanja) eqn:Hx; [|discriminate].
  intros H Hp. rewrite (starts_with_prefix_trans x hanja hanja' Hx Hp).
  exact H.
Qed.

(** Once the resolver accepts a page, text appended after it changes
    nothing: the first candidate is decided by the page read so far. *)
Theorem resolve_append_stable : forall hanja search_list more url_back,
  resolve hanja search_list = Some url_back ->
  resolve hanja (search_list ++ more) = Some url_back.
Proof.
  intros hanja sl more url_back; unfold resolve.
  destruct (split_once sl link_marker) as [[pre ls]|] eqn:E1; [|discriminate].
  destruct (split_once ls [dquote]) as [[ub rest]|] eqn:E2; [|discriminate].
  destruct (split_once rest emph_marker) as [[pre' x]|] eqn:E3; [|discriminate].
  destruct (starts_with x hanja) eqn:Hx; [|discriminate].
  intros H.
  apply split_once_first_split, (first_split_app _ _ _ _ more),
    split_once_first_split in E1, E2, E3.
  rewrite E1, E2, E3, (starts_with_app_true _ _ _ Hx). exact H.
Qed.

(** The entry URL the handler requests carries the id right after the same
    [/word/view.do?wordid=] marker the resolver looks for, so splitting
    the URL at that marker gives the id back. *)
Theorem entry_url_roundtrip : forall url_back,
  split_once (entry_url url_back) link_marker = Some (entry_url_base, url_back).
Proof.
  intros url_back. apply split_once_first_split. split.
  - reflexivity.
  - intros i Hi.
    change (entry_url url_back) with
      ((entry_url_base ++ link_marker) ++ url_back).
    rewrite skipn_app.
    change (List.length entry_url_base) with 20%nat in Hi.
    rewrite starts_with_app_long
      by (rewrite length_skipn;
          change (List.length link_marker) with 21%nat;
          change (List.length (entry_url_base ++ link_marker)) with 41%nat;
          lia).
    do 20 (destruct i as [|i]; [reflexivity|]). lia.
Qed.

Section ParserExtras.

Lemma loop_body_non_wrap : forall x cs d,
  class_is x "wrap_ex" = false ->
  loop_body x cs d = (cs, snd (loop_body x [] d)).
Proof.
  intros x cs d H; unfold loop_body; rewrite H.
  destruct (class_is x "item_example"); [reflexivity|].
  destruct (class_is x "ex_refer"); reflexivity.
Qed.

Lemma describe_app_no_wrap : forall xs ys,
  Forall (fun c => attr_class c <> Some (u "wrap_ex")) xs ->
  describe (xs ++ ys) = describe xs ++ describe ys.
Proof.
  induction xs as [|x xs IH]; intros ys Hall; [reflexivity|].
  inversion Hall as [|? ? Hx Hxs]; subst.
  rewrite <- app_comm_cons, !describe_cons.
  assert (Hw : class_is x "wrap_ex" = false) by now apply class_is_false.
  rewrite (loop_body_non_wrap x (xs ++ ys) [] Hw), (loop_body_non_wrap x xs [] Hw).
  cbn [fst snd]. rewrite IH by exact Hxs. now rewrite app_assoc.
Qed.


Lemma nl_terminated_lf : forall a, nl_terminated (a ++ [lf]).
Proof. intros a; right; now exists a. Qed.

Lemma nl_terminated_app : forall a b,
  nl_terminated a -> nl_terminated b -> nl_terminated (a ++ b).
Proof.
  intros a b Ha [-> | [d ->]].
  - now rewrite app_nil_r.
  - rewrite app_assoc. apply nl_terminated_lf.
Qed.

Lemma nl_terminated_concat : forall l,
  Forall nl_terminated l -> nl_terminated (List.concat l).
Proof.
  induction l as [|a l IH]; intros H; [now left|].
  inversion H; subst. simpl. apply nl_terminated_app; auto.
Qed.

Lemma phrase_block_nl : forall li, nl_terminated (phrase_block li).
Proof.
  intros li; unfold phrase_block.
  destruct (hd_error (select (ruby Hanja_new) li)); [|now left].
  rewrite !app_assoc. apply nl_terminated_lf.
Qed.

Lemma loop_body_nl : forall c cs, nl_terminated (snd (loop_body c cs [])).
Proof.
  intros c cs; unfold loop_body.
  destruct (class_is c "wrap_ex").
  { destruct cs; cbn [snd]; rewrite ?app_assoc; apply nl_terminated_lf. }
  destruct (class_is c "item_example").
  { cbn [snd]. rewrite (fold_left_push _ phrase_block push_li_spec).
    apply nl_terminated_concat. apply Forall_forall.
    intros x Hx. apply in_map_iff in Hx as (li & <- & _).
    apply phrase_block_nl. }
  destruct (class_is c "ex_refer"); cbn [snd]; [apply nl_terminated_lf|now left].
Qed.

End ParserExtras.

(** The description the parser builds is empty or ends with a line break:
    every block it appends is newline-terminated. *)
Theorem describe_newline_terminated : forall children,
  nl_terminated (describe children).
Proof.
  intros children. remember (List.length children) as n eqn:En.
  assert (Hle : (List.length children <= n)%nat) by lia. clear En.
  revert children Hle; induction n as [|n IH]; intros children Hle.
  - destruct children; simpl in Hle; [now left|lia].
  - destruct children as [|c cs]; [now left|].
    rewrite describe_cons. apply nl_terminated_app; [apply loop_body_nl|].
    apply IH. pose proof (loop_body_shrinks c cs []). simpl in Hle; lia.
Qed.

(** Content lists compose: when no element of the first list is a
    [wrap_ex] element, the description of the two lists joined is the two
    descriptions joined. *)
Theorem describe_app : forall xs ys,
  Forall (fun c => attr_class c <> Some (u "wrap_ex")) xs ->
  describe (xs ++ ys) = describe xs ++ describe ys.
Proof. exact describe_app_no_wrap. Qed.


(** With every Discord call succeeding, the I/O handler shows what the
    pure pipeline [hanja_cmd] computes from the same responses: a reply
    (the formatted entry or [No result]) ends in [Ok]; when a request fails
    the handler returns [Err], and when the reading is missing it panics,
    and in both cases the message keeps the [Searching for] placeholder. *)
Theorem hanja_http_outcome : forall get parse_document parse_fragment ok hanja,
  (forall e, ok e = true) ->
  let run := hanja_http get parse_document parse_fragment ok hanja in
  match hanja_cmd hanja (get (search_request hanja))
          (fun id => option_map parse_document (get (entry_request id)))
          (fun id => option_map parse_fragment (get (supplement_request id)))
  with
  | Replied c => snd run = ExitOk /\ shown ok (fst run) = Some c
  | Failed => snd run = ExitErr /\ shown ok (fst run) = Some (placeholder hanja)
  | Panicked => snd run = ExitPanic /\ shown ok (fst run) = Some (placeholder hanja)
  end.
Proof.
  intros get pd pf ok hanja Hok run; subst run.
  unfold hanja_http, hanja_cmd, shown.
  rewrite (Hok (Reply (placeholder hanja))). cbn [negb].
  destruct (get (search_request hanja)) as [sl|];
    [|cbn [fst snd shown_from]; now rewrite Hok].
  destruct (resolve hanja sl) as [url_back|];
    [|cbn [fst snd shown_from]; now rewrite !Hok].
  destruct (get (entry_request url_back)) as [resp|];
    cbn [option_map]; [|cbn [fst snd shown_from]; now rewrite Hok].
  destruct (extract_reading (pd resp)) as [|rd];
    [cbn [fst snd shown_from]; now rewrite Hok|].
  destruct (get (supplement_request url_back)) as [resp'|];
    cbn [option_map fst snd shown_from]; now rewrite !Hok.
Qed.

(** The handler sends at most three requests, in this order: the search,
    the entry page and the supplement, both of the latter for the id the
    resolver accepted; the entry page is requested only after the search
    page resolved to that id, the supplement only after the reading was
    extracted, and its [Referer] header is the entry page's URL. *)
Theorem hanja_http_requests : forall get parse_document parse_fragment ok hanja,
  exists url_back k,
    requests_of (fst (hanja_http get parse_document parse_fragment ok hanja)) =
    firstn k [search_request hanja; entry_request url_back;
              supplement_request url_back] /\
    ((2 <= k)%nat -> exists sl,
       get (search_request hanja) = Some sl /\ resolve hanja sl = Some url_back) /\
    ((3 <= k)%nat -> exists resp rd,
       get (entry_request url_back) = Some resp /\
       extract_reading (parse_document resp) = Val rd) /\
    In (u "Referer", req_url (entry_request url_back))
       (req_headers (supplement_request url_back)).
Proof.
  intros get pd pf ok hanja. unfold hanja_http.
  assert (Href : forall id, In (u "Referer", req_url (entry_request id))
                               (req_headers (supplement_request id)))
    by (intros id; left; reflexivity).
  destruct (negb (ok (Reply (placeholder hanja)))).
  { exists [], 0%nat. repeat split; try (intros; lia); eauto. }
  destruct (get (search_request hanja)) as [sl|] eqn:Es.
  2: { exists [], 1%nat. repeat split; try (intros; lia); eauto. }
  destruct (resolve hanja sl) as [url_back|] eqn:Er.
  2: { exists [], 1%nat. repeat split; try (intros; lia); eauto. }
  exists url_back.
  destruct (get (entry_request url_back)) as [resp|] eqn:Ee.
  2: { exists 2%nat. repeat split; try (intros; lia); eauto. }
  destruct (extract_reading (pd resp)) as [|rd] eqn:Ex.
  { exists 2%nat. repeat split; try (intros; lia); eauto. }
  exists 3%nat.
  destruct (get (supplement_request url_back)); repeat split; try (intros; lia); eauto.
Qed.

(** * Witnesses of the further properties *)

Lemma resolve_id_no_quote_witness :
  resolve [27700] sample_search = Some (u "abc") /\ ~ In dquote (u "abc").
Proof.
  assert (H : resolve [27700] sample_search = Some (u "abc"))
    by (vm_compute; reflexivity).
  split; [exact H|exact (resolve_id_no_quote _ _ _ H)].
Defined.

Lemma resolve_query_prefix_witness :
  resolve [] sample_search = Some (u "abc").
Proof.
  apply (resolve_query_prefix [27700; 36947] [] sample_search);
    vm_compute; reflexivity.
Defined.

Lemma resolve_append_stable_witness :
  resolve [27700] (sample_search ++ link_marker ++ u "zzz") = Some (u "abc").
Proof. apply resolve_append_stable; vm_compute; reflexivity. Defined.

Lemma describe_app_witness :
  describe ([sample_items] ++ [sample_wrap; sample_next]) =
  describe [sample_items] ++ describe [sample_wrap; sample_next].
Proof.
  apply describe_app.
  repeat constructor. intro H; vm_compute in H; discriminate H.
Defined.


Lemma hanja_http_outcome_witness :
  snd (hanja_http sample_get (fun _ => page_with_reading)
         (fun _ => sample_fragment) (fun _ => true) [27700]) = ExitOk /\
  shown (fun _ => true)
    (fst (hanja_http sample_get (fun _ => page_with_reading)
            (fun _ => sample_fragment) (fun _ => true) [27700])) =
  Some (format_reply [27700] (u " su ") (describe_fragment sample_fragment)).
Proof.
  pose proof (hanja_http_outcome sample_get (fun _ => page_with_reading)
                (fun _ => sample_fragment) (fun _ => true) [27700]
                (fun _ => eq_refl)) as H.
  vm_compute in H |- *. exact H.
Defined.

Lemma hanja_http_requests_witness :
  exists url_back k,
    requests_of (fst (hanja_http sample_get (fun _ => page_with_reading)
                        (fun _ => sample_fragment) (fun _ => true) [27700])) =
    firstn k [search_request [27700]; entry_request url_back;
              supplement_request url_back] /\
    ((2 <= k)%nat -> exists sl,
       sample_get (search_request [27700]) = Some sl /\
       resolve [27700] sl = Some url_back) /\
    ((3 <= k)%nat -> exists resp rd,
       sample_get (entry_request url_back) = Some resp /\
       extract_reading ((fun _ => page_with_reading) resp) = Val rd) /\
    In (u "Referer", req_url (entry_request url_back))
       (req_headers (supplement_request url_back)).
Proof.
  exact (hanja_http_requests sample_get (fun _ => page_with_reading)
           (fun _ => sample_fragment) (fun _ => true) [27700]).
Defined.
